(** * A shallow embedding of the query provider of [src/lib/index.tsx]

    [generateQueryProvider] closes over two private tables: [map], from a
    query key to [{ data, insertedAt }], and [listeners], from a query key to
    the array of callbacks attached to it.  The provider's methods [get],
    [set], [attachListener], [invalidateCache] and [fetch] are embedded below
    as functions on an explicit [World]: the two tables, the reading of
    [Date.now()] and the state of everything outside the provider.

    JavaScript numbers are taken as exact: millisecond timestamps and the
    attempt counter are integers ([Z]), a time-to-live in seconds is a
    rational ([Q]).  [debugPrint] only writes to the console and is left
    out. *)

From Stdlib Require Import ZArith QArith Lia List.
From stdpp Require Import base option list gmap strings.
Import ListNotations.

Local Open Scope Z_scope.

Section QueryProvider.

(** [D] is the type of cached data ([unknown] in the source), [L] the
    identity of a listener callback (callbacks are JavaScript references) and
    [E] the state of the world outside the provider: the server, the private
    variables of the callbacks. *)
Variables (D L E : Type).

(** ** Data *)

(** [type EventTypeEnum = "refetch"] *)
Inductive EventTypeEnum : Set := Refetch.

(** The value type of [map]: [{ insertedAt: number; data: unknown }]. *)
Record CacheEntry : Type := mkEntry { insertedAt : Z; data : D }.

(** [opts?: { timeoutInSeconds?: number }] *)
Record Opts : Set := mkOpts { timeoutInSeconds : option Q }.

Record World : Type := mkWorld {
  map : gmap string CacheEntry;      (* const map = new Map(...) *)
  listeners : gmap string (list L);  (* const listeners = new Map(...) *)
  date_now : Z;                      (* what Date.now() returns *)
  outside : E
}.

(** ** The store: [get], [set], [attachListener] *)

(** [get(queryKey) { return map.get(queryKey); }] *)
Definition get (queryKey : string) (w : World) : option CacheEntry :=
  map w !! queryKey.

(** [set(queryKey, data) { return map.set(queryKey, { data, insertedAt: Date.now() }); }] *)
Definition set (queryKey : string) (d : D) (w : World) : World :=
  mkWorld (<[queryKey := mkEntry (date_now w) d]> (map w))
          (listeners w) (date_now w) (outside w).

(** [map.delete(queryKey)], the first statement of [invalidateCache]. *)
Definition map_delete (queryKey : string) (w : World) : World :=
  mkWorld (delete queryKey (map w)) (listeners w) (date_now w) (outside w).

(** [[
    attachListener(queryKey, cb) {
      if (!listeners.has(queryKey)) listeners.set(queryKey, []);
      const listenerArray = listeners.get(queryKey);
      listenerArray!.push(cb);
    }
    ]]
    The array is shared with the table, so the push is an update of the
    table's entry.  The [None] branch of the second lookup is the
    [undefined] that the non-null assertion rules out. *)
Definition attachListener (queryKey : string) (cb : L) (w : World) : World :=
  let ls1 :=
    if bool_decide (is_Some (listeners w !! queryKey)) then listeners w
    else <[queryKey := []]> (listeners w) in
  let ls2 :=
    match ls1 !! queryKey with
    | Some listenerArray => <[queryKey := listenerArray ++ [cb]]> ls1
    | None => ls1
    end in
  mkWorld (map w) ls2 (date_now w) (outside w).

(** ** Callbacks

    The callbacks handed to the provider ([fetchFn], the listeners) are
    code from outside.  The two tables are private to the closure, so a
    callback, and any other task that runs while it is awaited, changes them
    only through the provider's methods.  What happens during a callback is
    therefore a sequence of [Effect]s: a [set], the removal done by an
    [invalidateCache], an [attachListener], or a change of the clock and of
    the outside state. *)
Inductive Effect : Type :=
| EffSet (queryKey : string) (d : D)
| EffDelete (queryKey : string)
| EffAttach (queryKey : string) (cb : L)
| EffOutside (t : Z) (e : E).

Definition apply_effect (w : World) (eff : Effect) : World :=
  match eff with
  | EffSet k d => set k d w
  | EffDelete k => map_delete k w
  | EffAttach k cb => attachListener k cb w
  | EffOutside t e => mkWorld (map w) (listeners w) t e
  end.

Definition run (effs : list Effect) (w : World) : World :=
  fold_left apply_effect effs w.

(** How a promise ends. *)
Inductive Settled (A : Type) : Type :=
| Fulfilled (a : A)
| Rejected (message : string)
| Pending.
Arguments Fulfilled {A} a.
Arguments Rejected {A} message.
Arguments Pending {A}.

(** One invocation of [fetchFn: () => Promise<D>], seen from the [try]
    block of [fetch]: the awaited promise is fulfilled with a value, or the
    call throws or the promise is rejected (both land in [catch]), or the
    promise never settles. *)
Inductive OpOutcome : Type :=
| OpResolves (d : D)
| OpFails
| OpPends.

Definition Operation : Type := World -> OpOutcome * list Effect.

(** ** [fetch] *)

(** [opts?.timeoutInSeconds ?? 300] *)
Definition ttl (opts : option Opts) : Q :=
  match opts with
  | Some o => match timeoutInSeconds o with Some t => t | None => 300%Q end
  | None => 300%Q
  end.

(** [(Date.now() - cache.insertedAt) / 1000 > (opts?.timeoutInSeconds ?? 300)] *)
Definition elapsed (cache : CacheEntry) (opts : option Opts) (t : Z) : bool :=
  negb (Qle_bool (inject_Z (t - insertedAt cache) / 1000) (ttl opts)).

(** The guard of [fetch]: [cache == undefined || ... > ...]. *)
Definition must_refetch (cache : option CacheEntry) (opts : option Opts) (t : Z) : bool :=
  match cache with
  | None => true
  | Some c => elapsed c opts t
  end.

(** [`Was not able to fetch query-key: ${queryKey}. Not retrying`] *)
Definition exhausted_message (queryKey : string) : string :=
  ("Was not able to fetch query-key: " +:+ queryKey +:+ ". Not retrying")%string.

(** The postfix [x++]: the value of the expression, then the new value of
    the variable. *)
Definition post_increment (x : Z) : Z * Z := (x, x + 1).

(** The result of running [fetch] for at most [fuel] nested calls: the
    promise it returned is settled, or the calls are used up and it is still
    retrying.  Both carry the world reached and the number of times
    [fetchFn] was invoked. *)
Inductive FetchRun : Type :=
| Done (r : Settled D) (w : World) (calls : nat)
| Retrying (w : World) (calls : nat).

Definition one_more_call (r : FetchRun) : FetchRun :=
  match r with
  | Done s w n => Done s w (S n)
  | Retrying w n => Retrying w (S n)
  end.

(** [[
    async fetch(queryKey, fetchFn, opts?, tries = 0) {
      const cache = this.get(queryKey);
      if (cache == undefined || (Date.now() - cache.insertedAt) / 1000 > (opts?.timeoutInSeconds ?? 300)) {
        if (tries >= 3) throw new Error(`Was not able to fetch ...`);
        try {
          const data = await fetchFn();
          this.set(queryKey, data);
          return data;
        } catch {
          return this.fetch(queryKey, fetchFn, opts, tries++);
        }
      } else {
        return cache.data as D;
      }
    }
    ]]
    One unit of [fuel] is one call of [fetch]. *)
Fixpoint fetch (fuel : nat) (queryKey : string) (fetchFn : Operation)
    (opts : option Opts) (tries : Z) (w : World) : FetchRun :=
  match fuel with
  | O => Retrying w 0
  | S fuel' =>
    let refetch :=
      if tries >=? 3 then Done (Rejected (exhausted_message queryKey)) w 0
      else
        match fetchFn w with
        | (OpResolves d, effs) =>
            Done (Fulfilled d) (set queryKey d (run effs w)) 1
        | (OpFails, effs) =>
            one_more_call
              (fetch fuel' queryKey fetchFn opts (fst (post_increment tries))
                     (run effs w))
        | (OpPends, effs) => Done Pending (run effs w) 1
        end in
    match get queryKey w with
    | None => refetch                                  (* cache == undefined *)
    | Some cache =>
        if elapsed cache opts (date_now w) then refetch
        else Done (Fulfilled (data cache)) w 0       (* return cache.data *)
    end
  end.

(** The default of the parameter [tries]. *)
Definition default_tries : Z := 0.

(** The worlds in which a run of [fetch] evaluates its guard, in order. *)
Fixpoint guard_worlds (fuel : nat) (queryKey : string) (fetchFn : Operation)
    (opts : option Opts) (tries : Z) (w : World) : list World :=
  match fuel with
  | O => []
  | S fuel' =>
    w ::
    if must_refetch (get queryKey w) opts (date_now w) && negb (tries >=? 3) then
      match fetchFn w with
      | (OpFails, effs) =>
          guard_worlds fuel' queryKey fetchFn opts (fst (post_increment tries))
                       (run effs w)
      | _ => []
      end
    else []
  end.

(** ** [invalidateCache] *)

(** A listener, [(eventType) => Promise<void>], is called and hands back a
    promise: [cb_call] is what happens before the call returns, [cb_settle]
    what happens from then until the promise settles and its reaction runs,
    and how it settles. *)
Record Callback : Type := mkCallback {
  cb_call : World -> list Effect;
  cb_settle : World -> Settled unit * list Effect
}.

(** What [invalidateCache] does to the listeners, in order. *)
Inductive Event : Type :=
| Invoked (cb : L) (e : EventTypeEnum)
| Resolved (cb : L).

(** [rest.forEach((cb) => cb("refetch"))]: the calls are made one after the
    other and the promises they return are dropped. *)
Fixpoint forEach_refetch (impl : L -> EventTypeEnum -> Callback)
    (rest : list L) (w : World) : World * list Event :=
  match rest with
  | [] => (w, [])
  | cb :: rest' =>
      let w' := run (cb_call (impl cb Refetch) w) w in
      let (w'', log) := forEach_refetch impl rest' w' in
      (w'', Invoked cb Refetch :: log)
  end.

(** [map.has(queryKey)] *)
Definition map_has (queryKey : string) (w : World) : bool :=
  bool_decide (is_Some (map w !! queryKey)).

(** A run of [invalidateCache]: it throws (a [TypeError], when [primary] is
    [undefined]), or it returns in the world [returned] and the reaction
    registered with [then] leaves the world [final]; [log] lists the calls
    made to listeners and the resolution of the primary's promise. *)
Inductive InvalidateRun : Type :=
| Threw (w : World)
| Ran (returned final : World) (log : list Event).

(** [[
    invalidateCache(queryKey) {
      map.delete(queryKey);
      const listenerArray = listeners.get(queryKey);
      if (listenerArray) {
        const [primary, ...rest] = listenerArray;
        primary("refetch").then(() => {
          if (map.has(queryKey)) rest.forEach((cb) => cb("refetch"));
        });
      }
    }
    ]]
    An empty array is truthy, so the branch is entered with [primary]
    undefined.  [rest] is a copy made when [invalidateCache] is called. *)
Definition invalidateCache (impl : L -> EventTypeEnum -> Callback)
    (queryKey : string) (w : World) : InvalidateRun :=
  let w1 := map_delete queryKey w in
  match listeners w1 !! queryKey with
  | None => Ran w1 w1 []
  | Some listenerArray =>
      match listenerArray with
      | [] => Threw w1
      | primary :: rest =>
          let w2 := run (cb_call (impl primary Refetch) w1) w1 in
          match cb_settle (impl primary Refetch) w2 with
          | (Fulfilled _, effs) =>
              let w3 := run effs w2 in
              if map_has queryKey w3 then
                let (w4, log) := forEach_refetch impl rest w3 in
                Ran w2 w4 (Invoked primary Refetch :: Resolved primary :: log)
              else Ran w2 w3 [Invoked primary Refetch; Resolved primary]
          | (_, effs) => Ran w2 (run effs w2) [Invoked primary Refetch]
          end
      end
  end.

(** The listeners called in a log, in order. *)
Definition invocations (log : list Event) : list L :=
  omap (fun ev => match ev with Invoked cb Refetch => Some cb | Resolved _ => None end) log.

(** The provider as [generateQueryProvider] returns it: both tables empty. *)
Definition initial (t : Z) (e : E) : World := mkWorld ∅ ∅ t e.

(** ** Reading a run *)

Definition calls_of (r : FetchRun) : nat :=
  match r with Done _ _ n => n | Retrying _ n => n end.

Definition world_of (r : FetchRun) : World :=
  match r with Done _ w _ => w | Retrying w _ => w end.

(** The age of an entry in milliseconds, [Date.now() - cache.insertedAt]. *)
Definition age (cache : CacheEntry) (w : World) : Q :=
  inject_Z (date_now w - insertedAt cache).

(** ** Predicates and traces used in the statements *)

Definition is_fulfilled {A : Type} (s : Settled A) : bool :=
  match s with Fulfilled _ => true | _ => false end.

(** Every array in the table of listeners has a first element. *)
Definition arrays_nonempty (ls : gmap string (list L)) : Prop :=
  forall k arr, ls !! k = Some arr -> arr <> [].

(** The only effect that gives a key an entry is a [set] of that key. *)
Definition writes (queryKey : string) (eff : Effect) : Prop :=
  exists d, eff = EffSet queryKey d.

(** The methods act on the world through effects only.  For [fetch]: the
    effects of the invocations of [fetchFn], then its own [set]. *)
Fixpoint fetch_effects (fuel : nat) (queryKey : string) (fetchFn : Operation)
    (opts : option Opts) (tries : Z) (w : World) : list Effect :=
  match fuel with
  | O => []
  | S fuel' =>
    if must_refetch (get queryKey w) opts (date_now w) && negb (tries >=? 3) then
      match fetchFn w with
      | (OpResolves d, effs) => effs ++ [EffSet queryKey d]
      | (OpFails, effs) =>
          effs ++ fetch_effects fuel' queryKey fetchFn opts tries (run effs w)
      | (OpPends, effs) => effs
      end
    else []
  end.

End QueryProvider.

Arguments Fulfilled {A} a.
Arguments Rejected {A} message.
Arguments Pending {A}.
Arguments mkEntry {D}.
Arguments insertedAt {D}.
Arguments data {D}.
Arguments mkWorld {D L E}.
Arguments map {D L E}.
Arguments listeners {D L E}.
Arguments date_now {D L E}.
Arguments outside {D L E}.
Arguments get {D L E}.
Arguments set {D L E}.
Arguments map_delete {D L E}.
Arguments attachListener {D L E}.
Arguments EffSet {D L E}.
Arguments EffDelete {D L E}.
Arguments EffAttach {D L E}.
Arguments EffOutside {D L E}.
Arguments apply_effect {D L E}.
Arguments run {D L E}.
Arguments OpResolves {D}.
Arguments OpFails {D}.
Arguments OpPends {D}.
Arguments elapsed {D}.
Arguments must_refetch {D}.
Arguments Done {D L E}.
Arguments Retrying {D L E}.
Arguments one_more_call {D L E}.
Arguments fetch {D L E}.
Arguments guard_worlds {D L E}.
Arguments mkCallback {D L E}.
Arguments cb_call {D L E}.
Arguments cb_settle {D L E}.
Arguments Invoked {L}.
Arguments Resolved {L}.
Arguments forEach_refetch {D L E}.
Arguments map_has {D L E}.
Arguments Threw {D L E}.
Arguments Ran {D L E}.
Arguments invalidateCache {D L E}.
Arguments invocations {L}.
Arguments initial {D L E}.
Arguments calls_of {D L E}.
Arguments world_of {D L E}.
Arguments age {D L E}.
Arguments arrays_nonempty {L}.
Arguments writes {D L E}.
Arguments fetch_effects {D L E}.

(** ** The hooks: [useMutation] and [useQuery]

    [useMutation] wraps a mutation and invalidates a key when it succeeds;
    [useQuery] keeps three pieces of component state and loads them through
    [fetch].  The timer of [useQuery] ([reloadInSeconds]) is about real time
    and is left out. *)

Section Hooks.

Context {D L E : Type}.

(** [P] is the type of the parameters of a mutation and [R] of its
    response. *)
Variables (P R : Type).

(** [mutationFn: (parameters: P) => Promise<R>]: how the promise of one call
    settles, and what happens until then. *)
Definition Mutation : Type := P -> World D L E -> Settled R * list (Effect D L E).

(** A run of [mutate]: how the promise it returns settles, the world at that
    moment (or, when it never settles, after the last step of [mutate]), and
    the run of [invalidateCache] if it came to that. *)
Record MutateRun : Type := mkMutateRun {
  mutate_settled : Settled R;
  mutate_world : World D L E;
  mutate_invalidation : option (InvalidateRun D L E)
}.

(** [[
    mutate: (parameters: P) => {
      return new Promise<R>((resolve) => {
        opts.mutationFn(parameters).then(async (response) => {
          queryProvider.invalidateCache(opts.invalidationKey);
          resolve(response);
        });
      });
    }
    ]]
    The executor passes no [reject] and [then] is given no handler for a
    rejection: when the mutation does not succeed, or [invalidateCache]
    throws before [resolve] is reached, the promise stays pending. *)
Definition mutate (impl : L -> EventTypeEnum -> Callback D L E)
    (invalidationKey : string) (mutationFn : Mutation) (parameters : P)
    (w : World D L E) : MutateRun :=
  match mutationFn parameters w with
  | (Fulfilled response, effs) =>
      let inv := invalidateCache impl invalidationKey (run effs w) in
      match inv with
      | Ran returned _ _ => mkMutateRun (Fulfilled response) returned (Some inv)
      | Threw w' => mkMutateRun Pending w' (Some inv)
      end
  | (_, effs) => mkMutateRun Pending (run effs w) None
  end.

(** The state of [useQuery]:
    [[
    const [data, setData] = useState<Data | null>(null);
    const [isLoading, setIsLoading] = useState(true);
    const [isError, setIsError] = useState(false);
    ]]
    [None] is [null]; the data themselves are taken not to be [null]. *)
Record QueryState : Type := mkQueryState {
  state_data : option D;
  isLoading : bool;
  isError : bool
}.

Definition useState_initial : QueryState := mkQueryState None true false.

(** A run of [loadState]: it has come to its end, or it is still waiting
    for [fetch]. *)
Inductive LoadRun : Type :=
| Loaded (w : World D L E) (st : QueryState)
| StillLoading (w : World D L E) (st : QueryState).

(** [[
    async function loadState() {
      try {
        const data = await queryProvider.fetch(opts.queryKey, opts.queryFn);
        setData(data);
      } catch {
        setIsError(true);
      }
      setIsLoading(false);
    }
    ]]
    [fetch] is called without [opts] and without [tries]. *)
Definition loadState (fuel : nat) (queryKey : string) (queryFn : Operation D L E)
    (w : World D L E) (st : QueryState) : LoadRun :=
  match fetch fuel queryKey queryFn None default_tries w with
  | Done (Fulfilled d) w' _ =>
      Loaded w' (mkQueryState (Some d) false (isError st))
  | Done (Rejected _) w' _ =>
      Loaded w' (mkQueryState (state_data st) false true)
  | Done Pending w' _ => StillLoading w' st
  | Retrying w' _ => StillLoading w' st
  end.

Definition state_of (r : LoadRun) : QueryState :=
  match r with Loaded _ st => st | StillLoading _ st => st end.

(** [[
    function isDataLoaded() {
      return data !== null && isLoading === false && isError === false;
    }
    ]] *)
Definition isDataLoaded (st : QueryState) : bool :=
  bool_decide (state_data st <> None) && negb (isLoading st) && negb (isError st).

(** The listener that [useQuery] attaches:
    [[
    async (e) => { switch (e) { case "refetch": await loadState(); break; } }
    ]]
    seen from the provider: its promise is fulfilled when [loadState] comes
    to its end, and what it does to the world is what its [fetch] does. *)
Definition refetch_listener (fuel : nat) (queryKey : string)
    (queryFn : Operation D L E) (ev : EventTypeEnum) : Callback D L E :=
  mkCallback
    (fun _ => [])
    (fun w =>
       match ev with
       | Refetch =>
           let effs := fetch_effects fuel queryKey queryFn None default_tries w in
           match fetch fuel queryKey queryFn None default_tries w with
           | Done (Fulfilled _) _ _ | Done (Rejected _) _ _ => (Fulfilled tt, effs)
           | Done Pending _ _ | Retrying _ _ => (Pending, effs)
           end
       end).

(** [attachListener] called for each callback of a list, in order. *)
Definition attach_all (queryKey : string) (cbs : list L) (w : World D L E) : World D L E :=
  fold_left (fun w' cb => attachListener queryKey cb w') cbs w.

(** An effect that leaves both tables alone. *)
Definition only_outside (eff : Effect D L E) : Prop :=
  match eff with EffOutside _ _ => True | _ => False end.

(** What [invalidateCache] has its listeners do, as effects on the world
    left by [map.delete].  First the call of the primary, made before
    [invalidateCache] returns. *)
Definition primary_call_effects (impl : L -> EventTypeEnum -> Callback D L E)
    (queryKey : string) (w : World D L E) : list (Effect D L E) :=
  match listeners w !! queryKey with
  | Some (primary :: _) => cb_call (impl primary Refetch) (map_delete queryKey w)
  | _ => []
  end.

(** The calls that [rest.forEach] makes, one after the other. *)
Fixpoint forEach_effects (impl : L -> EventTypeEnum -> Callback D L E)
    (rest : list L) (w : World D L E) : list (Effect D L E) :=
  match rest with
  | [] => []
  | cb :: rest' =>
      let effs := cb_call (impl cb Refetch) w in
      effs ++ forEach_effects impl rest' (run effs w)
  end.

(** What follows the return: the primary until its promise settles and,
    when it is fulfilled and [map] has the key, the calls of the others. *)
Definition reaction_effects (impl : L -> EventTypeEnum -> Callback D L E)
    (queryKey : string) (w : World D L E) : list (Effect D L E) :=
  match listeners w !! queryKey with
  | Some (primary :: rest) =>
      let w1 := map_delete queryKey w in
      let w2 := run (cb_call (impl primary Refetch) w1) w1 in
      match cb_settle (impl primary Refetch) w2 with
      | (Fulfilled _, effs) =>
          effs ++ (if map_has queryKey (run effs w2)
                   then forEach_effects impl rest (run effs w2) else [])
      | (_, effs) => effs
      end
  | _ => []
  end.

End Hooks.

Arguments Mutation D L E P R : clear implicits.
Arguments MutateRun D L E R : clear implicits.
Arguments mkMutateRun {D L E R}.
Arguments mutate_settled {D L E R}.
Arguments mutate_world {D L E R}.
Arguments mutate_invalidation {D L E R}.
Arguments mutate {D L E P R}.
Arguments QueryState D : clear implicits.
Arguments mkQueryState {D}.
Arguments state_data {D}.
Arguments isLoading {D}.
Arguments isError {D}.
Arguments useState_initial {D}.
Arguments LoadRun D L E : clear implicits.
Arguments Loaded {D L E}.
Arguments StillLoading {D L E}.
Arguments loadState {D L E}.
Arguments state_of {D L E}.
Arguments isDataLoaded {D}.
Arguments refetch_listener {D L E}.
Arguments attach_all {D L E}.
Arguments only_outside {D L E}.
Arguments primary_call_effects {D L E}.
Arguments forEach_effects {D L E}.
Arguments reaction_effects {D L E}.

(** ** Scenarios

    Concrete worlds and callbacks on which the statements below are run:
    data are integers or strings, listeners are numbered, and the outside
    state is absent or counts the invocations of an operation. *)

(** [set("user:1", "Ann")] on a new provider, at time 1000. *)
Definition ann_cached : World string nat unit :=
  set "user:1" "Ann" (initial 1000 tt).

Definition new_provider : World Z nat unit := initial 0 tt.

Definition entry_aged (ms : Z) : World Z nat unit :=
  mkWorld {[ "k" := mkEntry 0 7 ]} ∅ ms tt.

(** The entry of ["k"] is exactly 300 seconds old. *)
Definition at_the_boundary : World Z nat unit := entry_aged 300000.

Definition ten_seconds_old : World Z nat unit := entry_aged 10000.

Definition just_expired : World Z nat unit := entry_aged 300001.

(** [{ timeoutInSeconds: 5 }] *)
Definition five_seconds : option Opts := Some (mkOpts (Some 5%Q)).

Definition answers_eight : Operation Z nat unit := fun _ => (OpResolves 8, []).

(** An operation that takes ten milliseconds, fails on its first two
    invocations and answers 42 from the third on. *)
Definition flaky : Operation Z nat nat := fun w =>
  let after := [EffOutside (date_now w + 10) (S (outside w))] in
  if (outside w <? 2)%nat then (OpFails, after) else (OpResolves 42, after).

(** Listener 1 refetches and stores 5 under ["k"]; the others do nothing. *)
Definition refetching_primary (cb : nat) (ev : EventTypeEnum) : Callback Z nat unit :=
  match cb with
  | 1%nat => mkCallback (fun _ => []) (fun _ => (Fulfilled tt, [EffSet "k" 5]))
  | _ => mkCallback (fun _ => []) (fun _ => (Fulfilled tt, []))
  end.

Definition three_listeners : World Z nat unit :=
  run [EffSet "k" 7; EffAttach "k" 1%nat; EffAttach "k" 2%nat; EffAttach "k" 3%nat]
      new_provider.

Definition unrelated_effects : list (Effect Z nat unit) :=
  [EffSet "other" 1; EffAttach "k" 1%nat; EffDelete "k"; EffOutside 5 tt].

(** An operation that takes ten milliseconds and answers 8. *)
Definition slow_eight : Operation Z nat unit := fun w =>
  (OpResolves 8, [EffOutside (date_now w + 10) tt]).

(** An operation that fails after ten milliseconds, during which another
    caller has stored 9 under ["k"]. *)
Definition fails_while_other_writes : Operation Z nat unit := fun w =>
  (OpFails, [EffOutside (date_now w + 10) tt; EffSet "k" 9]).

(** An operation that fails after ten milliseconds, every time. *)
Definition always_down : Operation Z nat unit := fun w =>
  (OpFails, [EffOutside (date_now w + 10) tt]).

(** Listener 1 is the one of a [useQuery] on ["k"] whose [queryFn] is
    [slow_eight]; the others do nothing. *)
Definition query_listeners (cb : nat) (ev : EventTypeEnum) : Callback Z nat unit :=
  match cb with
  | 1%nat => refetch_listener 1 "k" slow_eight ev
  | _ => mkCallback (fun _ => []) (fun _ => (Fulfilled tt, []))
  end.

(** A mutation that is rejected for a negative parameter and answers
    ["ok"] after five milliseconds otherwise. *)
Definition rename_user : Mutation Z nat unit Z string := fun id w =>
  if id <? 0 then (Rejected "bad id", [])
  else (Fulfilled "ok", [EffOutside (date_now w + 5) tt]).

(** Listeners that take a millisecond to be called and another to settle,
    and leave the provider alone. *)
Definition idle_listeners (cb : nat) (ev : EventTypeEnum) : Callback Z nat unit :=
  mkCallback (fun w => [EffOutside (date_now w + 1) tt])
             (fun w => (Fulfilled tt, [EffOutside (date_now w + 1) tt])).

(** A stale entry for ["k"], an entry for another key and a listener. *)
Definition expired_among_others : World Z nat unit :=
  run [EffSet "k" 7; EffSet "other" 1; EffAttach "k" 1%nat; EffOutside 300001 tt]
      new_provider.

Section Properties.

Context {D L E : Type}.

Implicit Types (w returned final : World D L E) (c : CacheEntry D)
  (cache : option (CacheEntry D)) (fetchFn : Operation D L E)
  (eff : Effect D L E) (effs : list (Effect D L E))
  (r : FetchRun D L E) (impl : L -> EventTypeEnum -> Callback D L E)
  (d v : D) (cb primary : L) (rest arr listenerArray more : list L)
  (log : list (Event L)) (opts : option Opts) (tries t : Z) (e : E)
  (queryKey k : string) (fuel n : nat) (msg : string).

(** ** The guard, in terms of the age of the entry *)

Lemma elapsed_iff c opts w :
  elapsed c opts (date_now w) = true <-> (ttl opts * 1000 < age c w)%Q.
Proof.
  unfold elapsed, age. rewrite negb_true_iff, <- not_true_iff_false, Qle_bool_iff.
  split; intros H.
  - destruct (Qlt_le_dec (ttl opts * 1000) (inject_Z (date_now w - insertedAt c)))
      as [Hlt | Hle]; [exact Hlt | exfalso].
    apply H. apply Qle_shift_div_r; [reflexivity | exact Hle].
  - apply Qlt_not_le. apply Qlt_shift_div_l; [reflexivity | exact H].
Qed.

Lemma not_elapsed_iff c opts w :
  elapsed c opts (date_now w) = false <-> (age c w <= ttl opts * 1000)%Q.
Proof.
  rewrite <- not_true_iff_false, elapsed_iff. split.
  - apply Qnot_lt_le.
  - intros H1 H2. exact (Qle_not_lt _ _ H1 H2).
Qed.

Lemma must_refetch_iff cache opts w :
  must_refetch cache opts (date_now w) = true <->
  cache = None \/ exists c, cache = Some c /\ (ttl opts * 1000 < age c w)%Q.
Proof.
  destruct cache as [c|]; simpl.
  - rewrite elapsed_iff. split.
    + intros H. right. exists c. split; [reflexivity | exact H].
    + intros [H | (c' & Hc & H)]; [discriminate | congruence].
  - split; [intros _; left; reflexivity | reflexivity].
Qed.

(** [fetch], one call unfolded, along its three paths. *)
Lemma fetch_cached fuel queryKey fetchFn opts tries w c :
  get queryKey w = Some c -> elapsed c opts (date_now w) = false ->
  fetch (S fuel) queryKey fetchFn opts tries w = Done (Fulfilled (data c)) w 0.
Proof. intros Hg He. simpl. rewrite Hg, He. reflexivity. Qed.

Lemma fetch_refetch fuel queryKey fetchFn opts tries w :
  must_refetch (get queryKey w) opts (date_now w) = true ->
  fetch (S fuel) queryKey fetchFn opts tries w =
    if tries >=? 3 then Done (Rejected (exhausted_message queryKey)) w 0
    else
      match fetchFn w with
      | (OpResolves d, effs) => Done (Fulfilled d) (set queryKey d (run effs w)) 1
      | (OpFails, effs) =>
          one_more_call (fetch fuel queryKey fetchFn opts tries (run effs w))
      | (OpPends, effs) => Done Pending (run effs w) 1
      end.
Proof.
  intros Hm. simpl. destruct (get queryKey w) as [c|]; simpl in Hm.
  - rewrite Hm. reflexivity.
  - reflexivity.
Qed.

(** With fewer than three tries on entry, [fetch] never throws: every
    nested call receives the same [tries]. *)
Lemma fetch_below_three_never_throws fuel queryKey fetchFn opts tries w msg w' n :
  tries < 3 ->
  fetch fuel queryKey fetchFn opts tries w <> Done (Rejected msg) w' n.
Proof.
  intros Ht. revert w w' n.
  induction fuel as [|fuel IH]; intros w w' n; [discriminate|].
  destruct (must_refetch (get queryKey w) opts (date_now w)) eqn:Hm.
  - rewrite fetch_refetch by exact Hm.
    destruct (Z.geb_spec tries 3) as [Hge | _]; [lia|].
    destruct (fetchFn w) as [[d| |] effs]; try discriminate.
    intros Heq.
    destruct (fetch fuel queryKey fetchFn opts tries (run effs w)) as [s w2 m|w2 m] eqn:Hf;
      simpl in Heq; [|discriminate].
    injection Heq as -> -> _. exact (IH _ _ _ Hf).
  - destruct (get queryKey w) as [c|] eqn:Hg; simpl in Hm; [|discriminate].
    rewrite (fetch_cached _ _ _ _ _ _ _ Hg Hm). discriminate.
Qed.

(** An operation that fails whenever it is invoked, while nothing writes
    the key: every call of [fetch] invokes it and calls [fetch] again. *)
Lemma fetch_keeps_retrying fuel queryKey fetchFn opts tries w :
  tries < 3 ->
  (forall w', fst (fetchFn w') = OpFails) ->
  (forall w', get queryKey w' = None -> get queryKey (run (snd (fetchFn w')) w') = None) ->
  get queryKey w = None ->
  exists w', fetch fuel queryKey fetchFn opts tries w = Retrying w' fuel.
Proof.
  intros Ht Hfail Hkeep. revert w.
  induction fuel as [|fuel IH]; intros w Hg.
  - exists w. reflexivity.
  - rewrite fetch_refetch by (rewrite Hg; reflexivity).
    destruct (Z.geb_spec tries 3) as [Hge | _]; [lia|].
    specialize (Hfail w). specialize (Hkeep w Hg).
    destruct (fetchFn w) as [o effs]. simpl in Hfail, Hkeep. subst o.
    destruct (IH _ Hkeep) as [w' Hw']. exists w'. rewrite Hw'. reflexivity.
Qed.

(** ** Properties of [fetch] *)

(** C1 (the code departs from the claim): with the store empty, the default
    [tries] and an operation that fails on every invocation and does nothing
    else, [fetch] has not settled after any number [fuel] of nested calls and
    has invoked the operation [fuel] times by then; it neither stops at four
    invocations nor throws. *)
Theorem fetch_always_failing_never_settles queryKey t e fuel :
  fetch fuel queryKey (fun _ => (OpFails, [])) None default_tries
        (initial (D := D) (L := L) t e)
  = Retrying (initial t e) fuel.
Proof.
  induction fuel as [|fuel IH]; [reflexivity|].
  rewrite fetch_refetch by reflexivity.
  unfold default_tries in *. simpl. rewrite IH. reflexivity.
Qed.

(** C2: when the key has an entry with [now - insertedAt < ttl * 1000], where
    [ttl] is [timeoutInSeconds] or 300, a call of [fetch] returns the stored
    data at once, invokes the operation zero times and leaves the world, both
    tables included, as it was. *)
Theorem fetch_fresh_returns_cached fuel queryKey fetchFn opts tries w c :
  get queryKey w = Some c ->
  (age c w < ttl opts * 1000)%Q ->
  fetch (S fuel) queryKey fetchFn opts tries w = Done (Fulfilled (data c)) w 0.
Proof.
  intros Hg Hfresh. apply fetch_cached; [exact Hg|].
  apply not_elapsed_iff, Qlt_le_weak, Hfresh.
Qed.

(** C3 (amended): with [tries] below 3 (0 by default) and an operation that
    succeeds, [fetch] invokes the operation exactly once when the key has no
    entry or its entry has [now - insertedAt > ttl * 1000]; an entry with
    [now - insertedAt = ttl * 1000] exactly is still served from the cache
    and the operation is not invoked. *)
Theorem fetch_stale_invokes_once fuel queryKey fetchFn opts tries w d effs :
  tries < 3 ->
  fetchFn w = (OpResolves d, effs) ->
  ((get queryKey w = None \/
    exists c, get queryKey w = Some c /\ (ttl opts * 1000 < age c w)%Q) ->
   fetch (S fuel) queryKey fetchFn opts tries w
   = Done (Fulfilled d) (set queryKey d (run effs w)) 1)
  /\
  (forall c, get queryKey w = Some c -> (age c w == ttl opts * 1000)%Q ->
   fetch (S fuel) queryKey fetchFn opts tries w = Done (Fulfilled (data c)) w 0).
Proof.
  intros Ht Hop. split.
  - intros Hstale. apply must_refetch_iff in Hstale.
    rewrite fetch_refetch by exact Hstale.
    destruct (Z.geb_spec tries 3) as [Hge | _]; [lia|].
    rewrite Hop. reflexivity.
  - intros c Hg Hedge. apply fetch_cached; [exact Hg|].
    apply not_elapsed_iff. rewrite Hedge. apply Qle_refl.
Qed.

(** C6: a call of [fetch] that fails with the error "Was not able to fetch
    query-key ..." leaves the world as it was at the start of the call: no
    entry of [map] is written or removed and [listeners] is unchanged; the
    operation was not invoked. *)
Theorem fetch_exhausted_leaves_world fuel queryKey fetchFn opts tries w msg w' n :
  fetch fuel queryKey fetchFn opts tries w = Done (Rejected msg) w' n ->
  w' = w /\ map w' = map w /\ listeners w' = listeners w /\
  n = 0%nat /\ msg = exhausted_message queryKey.
Proof.
  intros Hrun.
  destruct (Z.ltb_spec tries 3) as [Hlt | Hge].
  - exfalso. exact (fetch_below_three_never_throws _ _ _ _ _ _ _ _ _ Hlt Hrun).
  - destruct fuel as [|fuel]; [discriminate|].
    destruct (must_refetch (get queryKey w) opts (date_now w)) eqn:Hm.
    + rewrite fetch_refetch in Hrun by exact Hm.
      destruct (Z.geb_spec tries 3) as [_ | Hlt]; [|lia].
      injection Hrun as <- <- <-. repeat split; reflexivity.
    + destruct (get queryKey w) as [c|] eqn:Hg; simpl in Hm; [|discriminate].
      rewrite (fetch_cached _ _ _ _ _ _ _ Hg Hm) in Hrun. discriminate.
Qed.

(** C7: when the entry is absent or stale at each of the three lookups and
    the operation fails on its first two invocations and succeeds with [v] on
    the third, [fetch] with the default [tries] returns [v] after three
    invocations and leaves for the key the entry [{ data: v, insertedAt }]
    with [insertedAt] the reading of [Date.now()] when the third invocation
    has succeeded. *)
Theorem fetch_recovers_on_third_attempt fuel queryKey fetchFn opts
    w0 effs0 effs1 effs2 v :
  let w1 := run effs0 w0 in
  let w2 := run effs1 w1 in
  let w3 := run effs2 w2 in
  must_refetch (get queryKey w0) opts (date_now w0) = true ->
  fetchFn w0 = (OpFails, effs0) ->
  must_refetch (get queryKey w1) opts (date_now w1) = true ->
  fetchFn w1 = (OpFails, effs1) ->
  must_refetch (get queryKey w2) opts (date_now w2) = true ->
  fetchFn w2 = (OpResolves v, effs2) ->
  fetch (S (S (S fuel))) queryKey fetchFn opts default_tries w0
  = Done (Fulfilled v) (set queryKey v w3) 3
  /\ get queryKey (set queryKey v w3) = Some (mkEntry (date_now w3) v).
Proof.
  intros w1 w2 w3 Hm0 Hf0 Hm1 Hf1 Hm2 Hf2. split.
  - rewrite fetch_refetch by exact Hm0. simpl (default_tries >=? 3). cbv iota.
    rewrite Hf0. fold w1.
    rewrite fetch_refetch by exact Hm1. simpl (default_tries >=? 3). cbv iota.
    rewrite Hf1. fold w2.
    rewrite fetch_refetch by exact Hm2. simpl (default_tries >=? 3). cbv iota.
    rewrite Hf2. reflexivity.
  - unfold get, set. simpl. apply lookup_insert_eq.
Qed.

(** C9: with [tries >= 3], a call of [fetch] whose guard holds (the entry is
    absent, or stale by the test of the code) throws the error naming the key
    at once, without invoking the operation; whatever [tries] is, an entry
    that passes the test as fresh is returned from the cache. *)
Theorem fetch_tries_at_least_three fuel queryKey fetchFn opts tries w :
  3 <= tries ->
  (must_refetch (get queryKey w) opts (date_now w) = true ->
   fetch (S fuel) queryKey fetchFn opts tries w
   = Done (Rejected (exhausted_message queryKey)) w 0)
  /\
  (forall tries' c, get queryKey w = Some c -> elapsed c opts (date_now w) = false ->
   fetch (S fuel) queryKey fetchFn opts tries' w = Done (Fulfilled (data c)) w 0).
Proof.
  intros Ht. split.
  - intros Hm. rewrite fetch_refetch by exact Hm.
    destruct (Z.geb_spec tries 3) as [_ | Hlt]; [reflexivity | lia].
  - intros tries' c Hg He. exact (fetch_cached _ _ _ _ _ _ _ Hg He).
Qed.

(** C5 (amended): [timeoutInSeconds] is the time-to-live of the guard of
    [fetch] (300 when omitted).  Two calls that differ only in [opts] settle
    alike, after as many invocations and in the same world, whenever the two
    options agree on the guard at every lookup the call performs. *)
Theorem fetch_depends_on_timeout_through_guard fuel queryKey fetchFn
    opts1 opts2 tries w :
  Forall (fun w' => must_refetch (get queryKey w') opts1 (date_now w')
                    = must_refetch (get queryKey w') opts2 (date_now w'))
         (guard_worlds fuel queryKey fetchFn opts1 tries w) ->
  fetch fuel queryKey fetchFn opts1 tries w = fetch fuel queryKey fetchFn opts2 tries w.
Proof.
  revert w. induction fuel as [|fuel IH]; intros w Hall; [reflexivity|].
  cbn [guard_worlds] in Hall. apply Forall_cons_1 in Hall as [Hhead Htail].
  destruct (must_refetch (get queryKey w) opts1 (date_now w)) eqn:Hm1.
  - rewrite (fetch_refetch fuel queryKey fetchFn opts1) by exact Hm1.
    rewrite (fetch_refetch fuel queryKey fetchFn opts2) by (symmetry; exact Hhead).
    destruct (tries >=? 3) eqn:Hge; [reflexivity|].
    simpl in Htail.
    destruct (fetchFn w) as [[d| |] effs]; try reflexivity.
    f_equal. apply IH. exact Htail.
  - destruct (get queryKey w) as [c|] eqn:Hg; simpl in Hm1, Hhead; [|discriminate].
    rewrite (fetch_cached _ _ _ opts1 _ _ _ Hg Hm1).
    rewrite (fetch_cached _ _ _ opts2 _ _ _ Hg (eq_sym Hhead)). reflexivity.
Qed.

(** ** The two tables under effects *)

Lemma attachListener_listeners queryKey cb w :
  listeners (attachListener queryKey cb w)
  = <[queryKey := default [] (listeners w !! queryKey) ++ [cb]]> (listeners w).
Proof.
  unfold attachListener. cbn [listeners].
  destruct (listeners w !! queryKey) as [arr|] eqn:Hl.
  - rewrite bool_decide_eq_true_2 by eauto. rewrite Hl. reflexivity.
  - rewrite bool_decide_eq_false_2 by (intros [x Hx]; discriminate).
    rewrite lookup_insert_eq, insert_insert_eq. reflexivity.
Qed.

Lemma apply_effect_arrays_nonempty w eff :
  arrays_nonempty (listeners w) -> arrays_nonempty (listeners (apply_effect w eff)).
Proof.
  intros Hinv. destruct eff as [k d|k|k cb|t e]; try exact Hinv.
  cbn [apply_effect]. rewrite attachListener_listeners.
  intros k' arr. rewrite lookup_insert. case_decide.
  - intros [= <-]. destruct (default [] (listeners w !! k)); discriminate.
  - apply Hinv.
Qed.

Lemma run_arrays_nonempty effs w :
  arrays_nonempty (listeners w) -> arrays_nonempty (listeners (run effs w)).
Proof.
  revert w. induction effs as [|eff effs IH]; intros w Hinv; [exact Hinv|].
  apply IH, apply_effect_arrays_nonempty, Hinv.
Qed.

(** No effect removes a listener: an array only grows at its end. *)
Lemma apply_effect_listeners_grow w eff k arr :
  listeners w !! k = Some arr ->
  exists more, listeners (apply_effect w eff) !! k = Some (arr ++ more).
Proof.
  intros Hl. destruct eff as [k' d|k'|k' cb|t e];
    try (exists []; rewrite app_nil_r; exact Hl).
  cbn [apply_effect]. rewrite attachListener_listeners, lookup_insert.
  case_decide as Hk.
  - subst k'. rewrite Hl. exists [cb]. reflexivity.
  - exists []. rewrite app_nil_r. exact Hl.
Qed.

Lemma run_listeners_grow effs w k arr :
  listeners w !! k = Some arr ->
  exists more, listeners (run effs w) !! k = Some (arr ++ more).
Proof.
  revert w arr. induction effs as [|eff effs IH]; intros w arr Hl.
  - exists []. rewrite app_nil_r. exact Hl.
  - destruct (apply_effect_listeners_grow w eff k arr Hl) as [m1 H1].
    destruct (IH _ _ H1) as [m2 H2].
    exists (m1 ++ m2). rewrite app_assoc. exact H2.
Qed.

Lemma apply_effect_keeps_absent queryKey w eff :
  ~ writes queryKey eff -> get queryKey w = None ->
  get queryKey (apply_effect w eff) = None.
Proof.
  unfold get. intros Hnw Hg. destruct eff as [k d|k|k cb|t e]; cbn; try exact Hg.
  - rewrite lookup_insert_ne; [exact Hg|].
    intros ->. apply Hnw. exists d. reflexivity.
  - rewrite lookup_delete. case_decide; [reflexivity | exact Hg].
Qed.

Lemma run_keeps_absent queryKey effs w :
  Forall (fun eff => ~ writes queryKey eff) effs -> get queryKey w = None ->
  get queryKey (run effs w) = None.
Proof.
  revert w. induction effs as [|eff effs IH]; intros w Hall Hg; [exact Hg|].
  apply Forall_cons_1 in Hall as [Hhead Htail].
  apply IH; [exact Htail|]. apply apply_effect_keeps_absent; assumption.
Qed.

Lemma run_app effs1 effs2 w : run (effs1 ++ effs2) w = run effs2 (run effs1 w).
Proof. apply fold_left_app. Qed.

Lemma world_of_one_more_call r : world_of (one_more_call r) = world_of r.
Proof. destruct r; reflexivity. Qed.

Lemma fetch_world fuel queryKey fetchFn opts tries w :
  world_of (fetch fuel queryKey fetchFn opts tries w)
  = run (fetch_effects fuel queryKey fetchFn opts tries w) w.
Proof.
  revert w. induction fuel as [|fuel IH]; intros w; [reflexivity|].
  cbn [fetch_effects].
  destruct (must_refetch (get queryKey w) opts (date_now w)) eqn:Hm.
  - rewrite fetch_refetch by exact Hm.
    destruct (tries >=? 3); [reflexivity|]. cbn [andb negb].
    destruct (fetchFn w) as [[d| |] effs]; cbn [world_of].
    + rewrite run_app. reflexivity.
    + rewrite world_of_one_more_call, IH, run_app. reflexivity.
    + reflexivity.
  - destruct (get queryKey w) as [c|] eqn:Hg; simpl in Hm; [|discriminate].
    rewrite (fetch_cached _ _ _ _ _ _ _ Hg Hm). reflexivity.
Qed.

(** For [invalidateCache]: the removal, then the effects of the listeners. *)
Lemma forEach_refetch_effects impl rest w :
  exists effs, fst (forEach_refetch impl rest w) = run effs w.
Proof.
  revert w. induction rest as [|cb rest IH]; intros w.
  - exists []. reflexivity.
  - cbn [forEach_refetch].
    destruct (IH (run (cb_call (impl cb Refetch) w) w)) as [effs Heffs].
    destruct (forEach_refetch impl rest _) as [w'' log]. cbn [fst] in *.
    exists (cb_call (impl cb Refetch) w ++ effs). rewrite run_app. exact Heffs.
Qed.

Lemma forEach_refetch_log impl rest w :
  snd (forEach_refetch impl rest w) = (fun cb => Invoked cb Refetch) <$> rest.
Proof.
  revert w. induction rest as [|cb rest IH]; intros w; [reflexivity|].
  cbn [forEach_refetch].
  specialize (IH (run (cb_call (impl cb Refetch) w) w)).
  destruct (forEach_refetch impl rest _) as [w'' log]. cbn [snd] in *.
  rewrite IH. reflexivity.
Qed.

Lemma invalidateCache_world impl queryKey w returned final log :
  invalidateCache impl queryKey w = Ran returned final log ->
  exists effs1 effs2,
    returned = run (EffDelete queryKey :: effs1) w /\ final = run effs2 returned.
Proof.
  unfold invalidateCache.
  destruct (listeners (map_delete queryKey w) !! queryKey) as [[|primary rest]|].
  - discriminate.
  - set (w1 := map_delete queryKey w).
    set (w2 := run (cb_call (impl primary Refetch) w1) w1).
    destruct (cb_settle (impl primary Refetch) w2) as [[[]|msg|] effs].
    + destruct (map_has queryKey (run effs w2)).
      * destruct (forEach_refetch_effects impl rest (run effs w2)) as [effs' He].
        destruct (forEach_refetch impl rest (run effs w2)) as [w4 lg]. cbn [fst] in He.
        intros [= <- <- _]. exists (cb_call (impl primary Refetch) w1), (effs ++ effs').
        split; [reflexivity|]. rewrite run_app. exact He.
      * intros [= <- <- _]. exists (cb_call (impl primary Refetch) w1), effs.
        split; reflexivity.
    + intros [= <- <- _]. exists (cb_call (impl primary Refetch) w1), effs.
      split; reflexivity.
    + intros [= <- <- _]. exists (cb_call (impl primary Refetch) w1), effs.
      split; reflexivity.
  - intros [= <- <- _]. exists [], []. split; reflexivity.
Qed.

(** ** Properties of [invalidateCache] *)


Lemma forEach_refetch_world impl rest w :
  fst (forEach_refetch impl rest w) = run (forEach_effects impl rest w) w.
Proof.
  revert w. induction rest as [|cb rest IH]; intros w; [reflexivity|].
  cbn [forEach_refetch forEach_effects].
  specialize (IH (run (cb_call (impl cb Refetch) w) w)).
  destruct (forEach_refetch impl rest _) as [w'' log]. cbn [fst] in *.
  rewrite run_app. exact IH.
Qed.

(** What a run of [invalidateCache] leaves: thrown, the world of the
    removal; returned, that world after the call of the primary, and in the
    end after the reaction too. *)
Lemma invalidateCache_effects impl queryKey w :
  match invalidateCache impl queryKey w with
  | Threw w' => w' = map_delete queryKey w
  | Ran returned final log =>
      returned = run (primary_call_effects impl queryKey w) (map_delete queryKey w) /\
      final = run (reaction_effects impl queryKey w) returned
  end.
Proof.
  unfold invalidateCache, primary_call_effects, reaction_effects.
  change (listeners (map_delete queryKey w) !! queryKey) with (listeners w !! queryKey).
  destruct (listeners w !! queryKey) as [[|primary rest]|]; [reflexivity| |split; reflexivity].
  set (w1 := map_delete queryKey w).
  set (w2 := run (cb_call (impl primary Refetch) w1) w1).
  destruct (cb_settle (impl primary Refetch) w2) as [[[]|msg|] effs];
    [|split; reflexivity|split; reflexivity].
  destruct (map_has queryKey (run effs w2)).
  - pose proof (forEach_refetch_world impl rest (run effs w2)) as Hw.
    destruct (forEach_refetch impl rest (run effs w2)) as [w4 lg]. cbn [fst] in Hw.
    split; [reflexivity|]. rewrite run_app. exact Hw.
  - split; [reflexivity|]. rewrite app_nil_r. reflexivity.
Qed.

(** From a world where the key has no entry: it has none after effects
    that hold no [set] of the key, and it has the new one after such a [set]
    or after a [fetch] of the key whose operation succeeds. *)
Lemma absent_until_written queryKey w effs :
  get queryKey w = None ->
  Forall (fun eff => ~ writes queryKey eff) effs ->
  get queryKey (run effs w) = None /\
  (forall d, get queryKey (run (effs ++ [EffSet queryKey d]) w)
             = Some (mkEntry (date_now (run effs w)) d)) /\
  (forall fuel fetchFn opts tries d effs0,
     tries < 3 -> fetchFn (run effs w) = (OpResolves d, effs0) ->
     get queryKey (world_of (fetch (S fuel) queryKey fetchFn opts tries (run effs w)))
     = Some (mkEntry (date_now (run effs0 (run effs w))) d)).
Proof.
  intros Hgone Hall.
  assert (Hstill : get queryKey (run effs w) = None)
    by (apply run_keeps_absent; assumption).
  split; [exact Hstill|]. split.
  - intros d. rewrite run_app. apply lookup_insert_eq.
  - intros fuel fetchFn opts tries d effs0 Ht Hop.
    rewrite fetch_refetch by (rewrite Hstill; reflexivity).
    destruct (Z.geb_spec tries 3) as [Hge | _]; [lia|].
    rewrite Hop. apply lookup_insert_eq.
Qed.

(** C8: [invalidateCache] removes the entry of the key before it calls any
    listener, so that in the world [w1] of the removal [get] returns nothing
    for the key.  The world in which [invalidateCache] returns is [w1] after
    the call of the primary listener ([w1] itself when the key has no
    listeners), and the world it leaves in the end is that one after the
    reaction to the primary's promise.  As long as nothing sets the key,
    neither the listeners that [invalidateCache] calls nor the effects
    [effs] that come after, [get] goes on returning nothing for it: when
    [invalidateCache] returns, in the end, and after [effs]; a [set] of the
    key, or a [fetch] of the key whose operation succeeds, then brings an
    entry back. *)
Theorem invalidate_clears_until_written impl queryKey w effs :
  Forall (fun eff => ~ writes queryKey eff) effs ->
  let w1 := map_delete queryKey w in
  let called := primary_call_effects impl queryKey w in
  let reacted := reaction_effects impl queryKey w in
  (get queryKey w1 = None /\
   get queryKey (run effs w1) = None /\
   (forall d, get queryKey (run (effs ++ [EffSet queryKey d]) w1)
              = Some (mkEntry (date_now (run effs w1)) d)) /\
   (forall fuel fetchFn opts tries d effs0,
      tries < 3 -> fetchFn (run effs w1) = (OpResolves d, effs0) ->
      get queryKey (world_of (fetch (S fuel) queryKey fetchFn opts tries (run effs w1)))
      = Some (mkEntry (date_now (run effs0 (run effs w1))) d))) /\
  match invalidateCache impl queryKey w with
  | Threw w' => w' = w1 /\ get queryKey w' = None
  | Ran returned final log =>
      returned = run called w1 /\
      final = run reacted returned /\
      (Forall (fun eff => ~ writes queryKey eff) called ->
       get queryKey returned = None) /\
      (Forall (fun eff => ~ writes queryKey eff) (called ++ reacted) ->
       get queryKey final = None /\
       get queryKey (run effs final) = None /\
       (forall d, get queryKey (run (effs ++ [EffSet queryKey d]) final)
                  = Some (mkEntry (date_now (run effs final)) d)) /\
       (forall fuel fetchFn opts tries d effs0,
          tries < 3 -> fetchFn (run effs final) = (OpResolves d, effs0) ->
          get queryKey
              (world_of (fetch (S fuel) queryKey fetchFn opts tries (run effs final)))
          = Some (mkEntry (date_now (run effs0 (run effs final))) d)))
  end.
Proof.
  intros Hall w1 called reacted.
  assert (Hgone : get queryKey w1 = None) by apply lookup_delete_eq.
  split.
  - split; [exact Hgone|]. exact (absent_until_written queryKey w1 effs Hgone Hall).
  - pose proof (invalidateCache_effects impl queryKey w) as Hinv.
    fold w1 called reacted in Hinv.
    destruct (invalidateCache impl queryKey w) as [w'|returned final log].
    + subst w'. split; [reflexivity | exact Hgone].
    + destruct Hinv as [Hret Hfin]. split; [exact Hret|]. split; [exact Hfin|]. split.
      * intros Hcalled. rewrite Hret. apply run_keeps_absent; assumption.
      * intros Hquiet.
        assert (Hfinal : get queryKey final = None).
        { rewrite Hfin, Hret, <- run_app. apply run_keeps_absent; assumption. }
        split; [exact Hfinal|].
        exact (absent_until_written queryKey final effs Hfinal Hall).
Qed.

(** C10: in every world reached from the provider as created,
    [attachListener] leaves for its key the array it found (a new empty one if
    there was none) with the callback appended, every array of the table of
    listeners is non-empty and begins with a callback, later effects only
    append to it, and [invalidateCache] never calls an undefined [primary]. *)
Theorem listener_arrays_never_empty t e effs :
  let w : World D L E := run effs (initial t e) in
  (forall queryKey cb,
     listeners (attachListener queryKey cb w) !! queryKey
     = Some (default [] (listeners w !! queryKey) ++ [cb])) /\
  (forall queryKey listenerArray,
     listeners w !! queryKey = Some listenerArray ->
     exists primary rest, listenerArray = primary :: rest) /\
  (forall queryKey listenerArray effs',
     listeners w !! queryKey = Some listenerArray ->
     exists more, listeners (run effs' w) !! queryKey = Some (listenerArray ++ more)) /\
  (forall impl queryKey w', invalidateCache impl queryKey w <> Threw w').
Proof.
  intros w.
  assert (Hinv : arrays_nonempty (listeners w)).
  { apply run_arrays_nonempty. intros k arr Hk. cbn in Hk.
    rewrite lookup_empty in Hk. discriminate. }
  split; [|split; [|split]].
  - intros k cb. rewrite attachListener_listeners. apply lookup_insert_eq.
  - intros k arr Hk. specialize (Hinv k arr Hk).
    destruct arr as [|primary rest]; [contradiction | eauto].
  - intros k arr effs' Hk. apply run_listeners_grow, Hk.
  - intros impl k w'. unfold invalidateCache.
    change (listeners (map_delete k w) !! k) with (listeners w !! k).
    destruct (listeners w !! k) as [[|primary rest]|] eqn:Hk.
    + exfalso. exact (Hinv k [] Hk eq_refl).
    + destruct (cb_settle _ _) as [[[]|msg|] effs0]; try discriminate.
      destruct (map_has _ _); [|discriminate].
      destruct (forEach_refetch _ _ _); discriminate.
    + discriminate.
Qed.

(** ** Further properties of the store and of [fetch] *)

Lemma world_eq w w' :
  map w = map w' -> listeners w = listeners w' -> date_now w = date_now w' ->
  outside w = outside w' -> w = w'.
Proof. destruct w, w'. cbn. intros -> -> -> ->. reflexivity. Qed.

(** X1: [set] then [get] gives back the data, stamped with the clock at the
    time of the [set]; any other key reads as before; a second [set] of the
    key leaves no trace of the first; the listeners are not touched. *)
Theorem set_get_last_write_wins queryKey k d d' w :
  get k (set queryKey d w)
  = (if decide (queryKey = k) then Some (mkEntry (date_now w) d) else get k w) /\
  set queryKey d' (set queryKey d w) = set queryKey d' w /\
  listeners (set queryKey d w) = listeners w.
Proof.
  split; [|split].
  - unfold get, set. cbn. apply lookup_insert.
  - unfold set. cbn. rewrite insert_insert_eq. reflexivity.
  - reflexivity.
Qed.

(** The guard depends on [opts] through the value of
    [opts?.timeoutInSeconds ?? 300] only. *)
Lemma elapsed_ttl c opts1 opts2 t :
  (ttl opts1 == ttl opts2)%Q -> elapsed c opts1 t = elapsed c opts2 t.
Proof. intros Heq. unfold elapsed. rewrite Heq. reflexivity. Qed.

(** X2: [fetch] depends on [opts] through the value of
    [opts?.timeoutInSeconds ?? 300] only: two calls whose options give the
    same value run alike, with the same result, world and number of
    invocations; so do a call without [opts], a call with [{}] and a call
    with [{ timeoutInSeconds: 300 }]. *)
Theorem fetch_default_timeout fuel queryKey fetchFn opts1 opts2 tries w :
  (ttl opts1 == ttl opts2)%Q ->
  fetch fuel queryKey fetchFn opts1 tries w = fetch fuel queryKey fetchFn opts2 tries w.
Proof.
  intros Heq. revert w. induction fuel as [|fuel IH]; intros w; [reflexivity|].
  cbn [fetch]. destruct (get queryKey w) as [c|].
  - rewrite (elapsed_ttl c opts1 opts2 _ Heq).
    destruct (elapsed c opts2 (date_now w)); [|reflexivity].
    destruct (tries >=? 3); [reflexivity|].
    destruct (fetchFn w) as [[d| |] effs]; try reflexivity.
    cbn [post_increment fst]. rewrite IH. reflexivity.
  - destruct (tries >=? 3); [reflexivity|].
    destruct (fetchFn w) as [[d| |] effs]; try reflexivity.
    cbn [post_increment fst]. rewrite IH. reflexivity.
Qed.

(** X3: right after [set], with the clock unchanged, [fetch] of the key
    returns the data without invoking the operation when the time-to-live is
    zero or more; with a negative [timeoutInSeconds] even that entry is stale
    and an operation that succeeds is invoked and its value returned. *)
Theorem set_then_fetch fuel queryKey d fetchFn opts tries w :
  ((0 <= ttl opts)%Q ->
   fetch (S fuel) queryKey fetchFn opts tries (set queryKey d w)
   = Done (Fulfilled d) (set queryKey d w) 0) /\
  (forall d' effs,
     (ttl opts < 0)%Q -> tries < 3 ->
     fetchFn (set queryKey d w) = (OpResolves d', effs) ->
     fetch (S fuel) queryKey fetchFn opts tries (set queryKey d w)
     = Done (Fulfilled d') (set queryKey d' (run effs (set queryKey d w))) 1).
Proof.
  assert (Hg : get queryKey (set queryKey d w) = Some (mkEntry (date_now w) d))
    by apply lookup_insert_eq.
  assert (Hage : (age (mkEntry (date_now w) d) (set queryKey d w) == 0)%Q).
  { unfold age. cbn. rewrite Z.sub_diag. reflexivity. }
  split.
  - intros Httl.
    apply (fetch_cached fuel queryKey fetchFn opts tries _ _ Hg).
    apply not_elapsed_iff. rewrite Hage.
    apply Qmult_le_0_compat; [exact Httl | discriminate].
  - intros d' effs Httl Ht Hop.
    rewrite fetch_refetch.
    + destruct (Z.geb_spec tries 3) as [Hge | _]; [lia|]. rewrite Hop. reflexivity.
    + rewrite Hg. cbn [must_refetch]. apply elapsed_iff. rewrite Hage.
      exact (Qmult_lt_compat_r (ttl opts) 0 1000 eq_refl Httl).
Qed.

Lemma elapsed_at_iff c opts t :
  elapsed c opts t = true <-> (ttl opts * 1000 < inject_Z (t - insertedAt c))%Q.
Proof.
  unfold elapsed. rewrite negb_true_iff, <- not_true_iff_false, Qle_bool_iff.
  split; intros H.
  - destruct (Qlt_le_dec (ttl opts * 1000) (inject_Z (t - insertedAt c)))
      as [Hlt | Hle]; [exact Hlt | exfalso].
    apply H. apply Qle_shift_div_r; [reflexivity | exact Hle].
  - apply Qlt_not_le. apply Qlt_shift_div_l; [reflexivity | exact H].
Qed.

(** X4: staleness only grows with time and shrinks with the time-to-live:
    an entry that the guard finds elapsed is elapsed at any later reading of
    the clock and for any shorter [timeoutInSeconds]. *)
Theorem elapsed_monotone c opts opts' t t' :
  elapsed c opts t = true -> t <= t' -> (ttl opts' <= ttl opts)%Q ->
  elapsed c opts' t' = true.
Proof.
  intros He Ht Httl.
  apply elapsed_at_iff in He. apply elapsed_at_iff.
  apply Qle_lt_trans with (y := (ttl opts * 1000)%Q).
  - apply Qmult_le_compat_r; [exact Httl | discriminate].
  - apply Qlt_le_trans with (y := inject_Z (t - insertedAt c)); [exact He|].
    rewrite <- Zle_Qle. lia.
Qed.

(** X5: below 3 the value of [tries] makes no difference, because the
    retry passes it on unchanged: two calls that differ only in [tries], both
    below 3, run alike. *)
Theorem fetch_tries_below_three_alike fuel queryKey fetchFn opts tries tries' w :
  tries < 3 -> tries' < 3 ->
  fetch fuel queryKey fetchFn opts tries w = fetch fuel queryKey fetchFn opts tries' w.
Proof.
  intros Ht Ht'. revert w. induction fuel as [|fuel IH]; intros w; [reflexivity|].
  cbn [fetch post_increment fst].
  destruct (Z.geb_spec tries 3) as [Hge | _]; [lia|].
  destruct (Z.geb_spec tries' 3) as [Hge | _]; [lia|].
  destruct (get queryKey w) as [c|]; [destruct (elapsed c opts (date_now w))|];
    try reflexivity;
    (destruct (fetchFn w) as [[d| |] effs]; try reflexivity; rewrite IH; reflexivity).
Qed.

(** A value that [fetch] returns is the data of the entry of the key in
    the world it leaves, and that entry has passed the guard as fresh or has
    just been stamped. *)
Lemma fetch_fulfilled_entry fuel queryKey fetchFn opts tries w d w' n :
  fetch fuel queryKey fetchFn opts tries w = Done (Fulfilled d) w' n ->
  exists c, get queryKey w' = Some c /\ data c = d /\
    (elapsed c opts (date_now w') = false \/ insertedAt c = date_now w').
Proof.
  revert w n. induction fuel as [|fuel IH]; intros w n Hrun; [discriminate|].
  destruct (must_refetch (get queryKey w) opts (date_now w)) eqn:Hm.
  - rewrite fetch_refetch in Hrun by exact Hm.
    destruct (tries >=? 3); [discriminate|].
    destruct (fetchFn w) as [[d0| |] effs]; [| |discriminate].
    + injection Hrun as <- <- _.
      exists (mkEntry (date_now (run effs w)) d0).
      split; [apply lookup_insert_eq|]. split; [reflexivity | right; reflexivity].
    + destruct (fetch fuel queryKey fetchFn opts tries (run effs w))
        as [s w2 m|w2 m] eqn:Hf; cbn in Hrun; [|discriminate].
      injection Hrun as -> -> _. exact (IH _ _ Hf).
  - destruct (get queryKey w) as [c|] eqn:Hg; cbn in Hm; [|discriminate].
    rewrite (fetch_cached _ _ _ _ _ _ _ Hg Hm) in Hrun.
    injection Hrun as <- <- _.
    exists c. split; [exact Hg|]. split; [reflexivity | left; exact Hm].
Qed.

(** X6: whenever [fetch] returns a value, the key has an entry holding that
    value in the world it leaves, and the entry either passes the guard as
    fresh or was stamped with the current reading of the clock; when the
    operation was not invoked, the world is the one the call started from. *)
Theorem fetch_returns_what_is_stored fuel queryKey fetchFn opts tries w d w' n :
  fetch fuel queryKey fetchFn opts tries w = Done (Fulfilled d) w' n ->
  exists c, get queryKey w' = Some c /\ data c = d /\
    (elapsed c opts (date_now w') = false \/ insertedAt c = date_now w') /\
    (n = 0%nat -> w' = w /\ elapsed c opts (date_now w) = false).
Proof.
  intros Hrun.
  destruct (fetch_fulfilled_entry _ _ _ _ _ _ _ _ _ Hrun) as (c & Hg & Hd & Hfresh).
  exists c. split; [exact Hg|]. split; [exact Hd|]. split; [exact Hfresh|].
  intros ->. destruct fuel as [|fuel]; [discriminate|].
  destruct (must_refetch (get queryKey w) opts (date_now w)) eqn:Hm.
  - rewrite fetch_refetch in Hrun by exact Hm.
    destruct (tries >=? 3); [discriminate|].
    destruct (fetchFn w) as [[d0| |] effs]; try discriminate.
    destruct (fetch fuel queryKey fetchFn opts tries (run effs w)); discriminate.
  - destruct (get queryKey w) as [c0|] eqn:Hg0; cbn in Hm; [|discriminate].
    rewrite (fetch_cached _ _ _ _ _ _ _ Hg0 Hm) in Hrun.
    injection Hrun as _ <-. split; [reflexivity|].
    rewrite Hg0 in Hg. injection Hg as <-. exact Hm.
Qed.

Lemma run_only_outside effs w :
  Forall only_outside effs ->
  map (run effs w) = map w /\ listeners (run effs w) = listeners w.
Proof.
  revert w. induction effs as [|eff effs IH]; intros w Hall; [split; reflexivity|].
  apply Forall_cons_1 in Hall as [Hhead Htail].
  destruct eff as [k d|k|k cb|t e]; try contradiction.
  exact (IH _ Htail).
Qed.

(** X7: when the operation itself leaves the two tables alone, a run of
    [fetch] changes nothing but the entry of its own key: the listeners and
    the entries of all other keys are as before, and an entry that the key
    had is never removed. *)
Theorem fetch_writes_its_key_only fuel queryKey fetchFn opts tries w :
  (forall w0, Forall only_outside (snd (fetchFn w0))) ->
  let w' := world_of (fetch fuel queryKey fetchFn opts tries w) in
  listeners w' = listeners w /\
  (forall k, k <> queryKey -> get k w' = get k w) /\
  (is_Some (get queryKey w) -> is_Some (get queryKey w')).
Proof.
  intros Hop. revert w. induction fuel as [|fuel IH]; intros w.
  - cbn. split; [reflexivity|]. split; [reflexivity | exact id].
  - destruct (must_refetch (get queryKey w) opts (date_now w)) eqn:Hm.
    + rewrite fetch_refetch by exact Hm.
      destruct (tries >=? 3); [cbn; split; [reflexivity|]; split; [reflexivity | exact id]|].
      specialize (Hop w). destruct (fetchFn w) as [[d| |] effs]; cbn [snd] in Hop;
        destruct (run_only_outside effs w Hop) as [Hmap Hls].
      * cbn. split; [exact Hls|]. split.
        -- intros k Hk. unfold get. cbn. rewrite lookup_insert_ne by congruence.
           rewrite Hmap. reflexivity.
        -- intros _. unfold get. cbn. rewrite lookup_insert_eq. eauto.
      * rewrite world_of_one_more_call.
        destruct (IH (run effs w)) as (H1 & H2 & H3). cbn zeta in *.
        split; [rewrite H1; exact Hls|]. split.
        -- intros k Hk. rewrite (H2 k Hk). unfold get. rewrite Hmap. reflexivity.
        -- intros Hk. apply H3. unfold get. rewrite Hmap. exact Hk.
      * cbn. split; [exact Hls|]. split.
        -- intros k Hk. unfold get. rewrite Hmap. reflexivity.
        -- unfold get. rewrite Hmap. exact id.
    + destruct (get queryKey w) as [c|] eqn:Hg; cbn in Hm; [|discriminate].
      rewrite (fetch_cached _ _ _ _ _ _ _ Hg Hm). cbn.
      split; [reflexivity|]. split; [reflexivity | intros _; rewrite Hg; eauto].
Qed.

(** X8: a retry reuses the guard.  When the operation fails but the key has
    a fresh entry by the time of the retry (written by another caller while
    the operation was awaited), [fetch] returns that entry after the one
    invocation, without invoking the operation again. *)
Theorem fetch_retry_serves_concurrent_write fuel queryKey fetchFn opts tries w effs c :
  tries < 3 ->
  must_refetch (get queryKey w) opts (date_now w) = true ->
  fetchFn w = (OpFails, effs) ->
  get queryKey (run effs w) = Some c ->
  elapsed c opts (date_now (run effs w)) = false ->
  fetch (S (S fuel)) queryKey fetchFn opts tries w
  = Done (Fulfilled (data c)) (run effs w) 1.
Proof.
  intros Ht Hm Hop Hg He.
  rewrite fetch_refetch by exact Hm.
  destruct (Z.geb_spec tries 3) as [Hge | _]; [lia|].
  rewrite Hop, (fetch_cached _ _ _ _ _ _ _ Hg He). reflexivity.
Qed.

(** ** Further properties of the listeners and of [invalidateCache] *)

Lemma attach_all_listeners queryKey cbs w :
  listeners (attach_all queryKey cbs w)
  = match cbs with
    | [] => listeners w
    | _ => <[queryKey := default [] (listeners w !! queryKey) ++ cbs]> (listeners w)
    end.
Proof.
  revert w. induction cbs as [|cb cbs IH]; intros w; [reflexivity|].
  change (attach_all queryKey (cb :: cbs) w)
    with (attach_all queryKey cbs (attachListener queryKey cb w)).
  rewrite IH, attachListener_listeners.
  destruct cbs as [|cb' cbs]; [reflexivity|].
  rewrite lookup_insert_eq, insert_insert_eq. simpl.
  rewrite <- app_assoc. reflexivity.
Qed.

Lemma attach_all_map queryKey cbs w : map (attach_all queryKey cbs w) = map w.
Proof.
  revert w. induction cbs as [|cb cbs IH]; intros w; [reflexivity|].
  change (attach_all queryKey (cb :: cbs) w)
    with (attach_all queryKey cbs (attachListener queryKey cb w)).
  rewrite IH. reflexivity.
Qed.

(** X9: callbacks attached to a key are kept in the order of the calls,
    after those already there and with repetitions kept (nothing checks for
    a callback attached twice); the arrays of other keys and the cache are
    not touched. *)
Theorem attach_all_appends_in_order queryKey cbs w :
  cbs <> [] ->
  listeners (attach_all queryKey cbs w) !! queryKey
  = Some (default [] (listeners w !! queryKey) ++ cbs) /\
  (forall k, k <> queryKey ->
     listeners (attach_all queryKey cbs w) !! k = listeners w !! k) /\
  map (attach_all queryKey cbs w) = map w.
Proof.
  intros Hne. rewrite attach_all_listeners.
  destruct cbs as [|cb cbs]; [contradiction|].
  split; [apply lookup_insert_eq|]. split.
  - intros k Hk. apply lookup_insert_ne. congruence.
  - apply attach_all_map.
Qed.

(** X10: on a key without listeners, [invalidateCache] only removes the
    entry: no callback is called, nothing is thrown, the listeners and the
    entries of other keys are as before; a second call changes nothing more,
    and with no entry either the call changes nothing at all. *)
Theorem invalidate_without_listeners impl queryKey w :
  listeners w !! queryKey = None ->
  let w1 := map_delete queryKey w in
  invalidateCache impl queryKey w = Ran w1 w1 [] /\
  invalidateCache impl queryKey w1 = Ran w1 w1 [] /\
  listeners w1 = listeners w /\
  (forall k, k <> queryKey -> get k w1 = get k w) /\
  (get queryKey w = None -> w1 = w).
Proof.
  intros Hl w1.
  assert (Hidem : map_delete queryKey w1 = w1).
  { unfold w1, map_delete. cbn. rewrite delete_delete_eq. reflexivity. }
  split; [|split; [|split; [|split]]].
  - unfold invalidateCache. fold w1.
    change (listeners w1 !! queryKey) with (listeners w !! queryKey).
    rewrite Hl. reflexivity.
  - unfold invalidateCache. rewrite Hidem.
    change (listeners w1 !! queryKey) with (listeners w !! queryKey).
    rewrite Hl. reflexivity.
  - reflexivity.
  - intros k Hk. unfold get, w1. cbn. apply lookup_delete_ne. congruence.
  - intros Hg. apply world_eq; try reflexivity.
    unfold w1. cbn. apply delete_id. exact Hg.
Qed.

(** X11: when the primary listener of a key is the one that [useQuery]
    attaches and its [queryFn] succeeds, [invalidateCache] removes the entry,
    the listener fetches anew (the entry is gone, so the operation is
    invoked whatever the age of the old entry), the new value is stored, and
    every other listener of the key is then called, in order. *)
Theorem invalidate_refetch_notifies_all impl queryKey w primary rest queryFn fuel d effs :
  listeners w !! queryKey = Some (primary :: rest) ->
  impl primary Refetch = refetch_listener (S fuel) queryKey queryFn Refetch ->
  queryFn (map_delete queryKey w) = (OpResolves d, effs) ->
  let w1 := map_delete queryKey w in
  let w3 := set queryKey d (run effs w1) in
  invalidateCache impl queryKey w
  = Ran w1 (fst (forEach_refetch impl rest w3))
        (Invoked primary Refetch :: Resolved primary
         :: ((fun cb => Invoked cb Refetch) <$> rest)) /\
  get queryKey w3 = Some (mkEntry (date_now (run effs w1)) d).
Proof.
  intros Hl Himpl Hop w1 w3.
  assert (Hg : get queryKey w1 = None) by apply lookup_delete_eq.
  assert (Hf : fetch (S fuel) queryKey queryFn None default_tries w1
               = Done (Fulfilled d) w3 1).
  { rewrite fetch_refetch by (rewrite Hg; reflexivity).
    cbn [default_tries Z.geb Z.compare]. fold w1 in Hop. rewrite Hop. reflexivity. }
  assert (He : run (fetch_effects (S fuel) queryKey queryFn None default_tries w1) w1 = w3).
  { rewrite <- fetch_world, Hf. reflexivity. }
  split; [|apply lookup_insert_eq].
  unfold invalidateCache. fold w1.
  change (listeners w1 !! queryKey) with (listeners w !! queryKey).
  rewrite Hl, Himpl. cbn [refetch_listener cb_call cb_settle run fold_left].
  rewrite Hf, He.
  assert (Hhas : map_has queryKey w3 = true).
  { unfold map_has. apply bool_decide_eq_true_2. unfold w3, set. cbn.
    rewrite lookup_insert_eq. eauto. }
  rewrite Hhas.
  pose proof (forEach_refetch_log impl rest w3) as Hlog.
  destruct (forEach_refetch impl rest w3) as [w4 lg]. cbn [fst snd] in *.
  rewrite Hlog. reflexivity.
Qed.

Lemma invalidateCache_runs impl queryKey w :
  arrays_nonempty (listeners w) ->
  exists returned final log, invalidateCache impl queryKey w = Ran returned final log.
Proof.
  intros Hinv. unfold invalidateCache.
  change (listeners (map_delete queryKey w) !! queryKey) with (listeners w !! queryKey).
  destruct (listeners w !! queryKey) as [[|primary rest]|] eqn:Hk.
  - exfalso. exact (Hinv queryKey [] Hk eq_refl).
  - destruct (cb_settle _ _) as [[[]|msg|] effs0]; eauto.
    destruct (map_has _ _); eauto.
    destruct (forEach_refetch _ _ _); eauto.
  - eauto.
Qed.

(** ** Properties of the hooks *)

Context {P R : Type}.

Implicit Types (mutationFn : Mutation D L E P R) (parameters : P) (response : R)
  (st : QueryState D) (queryFn : Operation D L E).

Lemma default_tries_below_three : default_tries < 3.
Proof. reflexivity. Qed.


(** X13: the promise of [mutate] is never rejected.  It resolves only with
    the response of a mutation that succeeded, after [invalidateCache] was
    called; when the mutation is rejected or never settles, the promise
    stays pending for ever and [invalidateCache] is not called. *)
Theorem mutate_never_rejects impl queryKey mutationFn parameters w :
  let r := mutate impl queryKey mutationFn parameters w in
  (forall msg, mutate_settled r <> Rejected msg) /\
  (forall response, mutate_settled r = Fulfilled response ->
     fst (mutationFn parameters w) = Fulfilled response /\
     is_Some (mutate_invalidation r)) /\
  (is_fulfilled (fst (mutationFn parameters w)) = false ->
     r = mkMutateRun Pending (run (snd (mutationFn parameters w)) w) None).
Proof.
  intros r. subst r. unfold mutate.
  destruct (mutationFn parameters w) as [[resp|msg0|] effs]; cbn [fst snd is_fulfilled].
  - destruct (invalidateCache impl queryKey (run effs w)) as [w'|returned final log];
      cbn; (split; [discriminate|]); (split; [|discriminate]).
    + intros response Heq. discriminate.
    + intros response [= ->]. eauto.
  - cbn. split; [discriminate|]. split; [discriminate | reflexivity].
  - cbn. split; [discriminate|]. split; [discriminate | reflexivity].
Qed.

(** X14: [loadState] never sets [isError].  It calls [fetch] with the
    default [tries], and such a call never throws, so the [catch] of
    [loadState] is not reached: a component that starts with [isError] false
    keeps it false through every load. *)
Theorem loadState_never_sets_error fuel queryKey queryFn w st :
  isError (state_of (loadState fuel queryKey queryFn w st)) = isError st.
Proof.
  unfold loadState.
  destruct (fetch fuel queryKey queryFn None default_tries w)
    as [[d|msg|] w' n|w' n] eqn:Hf; try reflexivity.
  exfalso. exact (fetch_below_three_never_throws _ _ _ _ _ _ _ _ _ default_tries_below_three Hf).
Qed.

(** X15: when [loadState] has come to its end, [isLoading] is false, [data]
    is the data of the entry that the key has in the store, and
    [isDataLoaded()] is true unless [isError] was set before. *)
Theorem loadState_loaded fuel queryKey queryFn w st w' st' :
  loadState fuel queryKey queryFn w st = Loaded w' st' ->
  isLoading st' = false /\
  (exists c, get queryKey w' = Some c /\ state_data st' = Some (data c)) /\
  isDataLoaded st' = negb (isError st).
Proof.
  unfold loadState.
  destruct (fetch fuel queryKey queryFn None default_tries w)
    as [[d|msg|] w2 n|w2 n] eqn:Hf; try discriminate.
  - intros [= <- <-]. cbn. split; [reflexivity|]. split; [|reflexivity].
    destruct (fetch_fulfilled_entry _ _ _ _ _ _ _ _ _ Hf) as (c & Hg & Hd & _).
    exists c. split; [exact Hg | rewrite Hd; reflexivity].
  - exfalso. exact (fetch_below_three_never_throws _ _ _ _ _ _ _ _ _ default_tries_below_three Hf).
Qed.

(** X16: with a [queryFn] that fails whenever it is invoked, on a key that
    has no entry and that nothing else writes, [loadState] never comes to its
    end: after any number of nested calls of [fetch] the state is as it was,
    so the component goes on showing [isLoading] and never an error. *)
Theorem loadState_failing_query_stays_loading fuel queryKey queryFn w st :
  (forall w0, fst (queryFn w0) = OpFails) ->
  (forall w0, get queryKey w0 = None ->
              get queryKey (run (snd (queryFn w0)) w0) = None) ->
  get queryKey w = None ->
  exists w', loadState fuel queryKey queryFn w st = StillLoading w' st.
Proof.
  intros Hfail Hkeep Hg. unfold loadState.
  destruct (fetch_keeps_retrying fuel queryKey queryFn None default_tries w
              default_tries_below_three Hfail Hkeep Hg) as [w' Hw'].
  rewrite Hw'. exists w'. reflexivity.
Qed.

End Properties.

(** ** The statements on the scenarios *)

(** The example of the specification: right after [set("user:1", "Ann")],
    [fetch] returns ["Ann"] and the operation is not invoked. *)
Lemma fetch_fresh_returns_cached_witness :
  fetch 1 "user:1" (fun _ => (OpFails, [])) None default_tries ann_cached
  = Done (Fulfilled "Ann") ann_cached 0.
Proof.
  apply (fetch_fresh_returns_cached 0 "user:1" (fun _ => (OpFails, [])) None
           default_tries ann_cached (mkEntry 1000 "Ann")).
  - reflexivity.
  - reflexivity.
Defined.

(** C3 as stated fails at the boundary: the entry of ["k"] is exactly
    [300 * 1000] milliseconds old, the operation would succeed, and [fetch]
    returns the cached 7 without invoking it. *)
Lemma fetch_at_boundary_serves_cache :
  get "k" at_the_boundary = Some (mkEntry 0 7) /\
  (ttl None * 1000 <= age (mkEntry 0%Z 7%Z) at_the_boundary)%Q /\
  answers_eight at_the_boundary = (OpResolves 8, []) /\
  fetch 1 "k" answers_eight None default_tries at_the_boundary
  = Done (Fulfilled 7) at_the_boundary 0 /\
  calls_of (fetch 1 "k" answers_eight None default_tries at_the_boundary) <> 1%nat.
Proof.
  split; [reflexivity|]. split; [discriminate|]. split; [reflexivity|].
  split; [reflexivity | discriminate].
Qed.

Lemma fetch_stale_invokes_once_witness :
  fetch 1 "k" answers_eight None default_tries just_expired
  = Done (Fulfilled 8) (set "k" 8 just_expired) 1 /\
  fetch 1 "k" answers_eight None default_tries at_the_boundary
  = Done (Fulfilled 7) at_the_boundary 0.
Proof.
  split.
  - apply (fetch_stale_invokes_once 0 "k" answers_eight None default_tries
             just_expired 8 []).
    + reflexivity.
    + reflexivity.
    + right. exists (mkEntry 0 7). split; reflexivity.
  - apply (proj2 (fetch_stale_invokes_once 0 "k" answers_eight None default_tries
                    at_the_boundary 8 [] eq_refl eq_refl) (mkEntry 0 7)).
    + reflexivity.
    + reflexivity.
Defined.

(** C5 as stated fails: on an entry ten seconds old, a call with
    [timeoutInSeconds: 5] invokes the operation, returns its 8 and rewrites
    the entry, and the same call without the option returns the cached 7 and
    leaves the entry. *)
Lemma fetch_timeout_changes_outcome :
  fetch 1 "k" answers_eight five_seconds default_tries ten_seconds_old
  = Done (Fulfilled 8) (set "k" 8 ten_seconds_old) 1 /\
  fetch 1 "k" answers_eight None default_tries ten_seconds_old
  = Done (Fulfilled 7) ten_seconds_old 0 /\
  get "k" (set "k" 8 ten_seconds_old) = Some (mkEntry 10000 8) /\
  get "k" ten_seconds_old = Some (mkEntry 0 7) /\
  fetch 1 "k" answers_eight five_seconds default_tries ten_seconds_old
  <> fetch 1 "k" answers_eight None default_tries ten_seconds_old.
Proof.
  repeat split; try reflexivity. discriminate.
Qed.

Lemma fetch_depends_on_timeout_through_guard_witness :
  fetch 3 "k" flaky five_seconds default_tries (initial 1000 0%nat)
  = fetch 3 "k" flaky None default_tries (initial 1000 0%nat).
Proof.
  apply (fetch_depends_on_timeout_through_guard 3 "k" flaky five_seconds None
           default_tries (initial 1000 0%nat)).
  repeat (constructor; [reflexivity|]). constructor.
Defined.

Lemma fetch_exhausted_leaves_world_witness :
  fetch 1 "k" answers_eight None 3 new_provider
  = Done (Rejected (exhausted_message "k")) new_provider 0 /\
  map new_provider = map new_provider /\ listeners new_provider = listeners new_provider.
Proof.
  split; [reflexivity|].
  destruct (fetch_exhausted_leaves_world 1 "k" answers_eight None 3 new_provider
              (exhausted_message "k") new_provider 0 eq_refl)
    as (_ & Hmap & Hlisteners & _).
  split; [exact Hmap | exact Hlisteners].
Defined.

Lemma fetch_recovers_on_third_attempt_witness :
  fetch 3 "k" flaky None default_tries (initial 1000 0%nat)
  = Done (Fulfilled 42) (mkWorld {[ "k" := mkEntry 1030 42 ]} ∅ 1030 3%nat) 3 /\
  get "k" (mkWorld (L := nat) {[ "k" := mkEntry 1030 42 ]} ∅ 1030 3%nat)
  = Some (mkEntry 1030 42).
Proof.
  apply (fetch_recovers_on_third_attempt 0 "k" flaky None (initial 1000 0%nat)
           [EffOutside 1010 1%nat] [EffOutside 1020 2%nat] [EffOutside 1030 3%nat] 42);
    reflexivity.
Defined.

Lemma fetch_tries_at_least_three_witness :
  fetch 1 "k" answers_eight None 3 new_provider
  = Done (Rejected (exhausted_message "k")) new_provider 0 /\
  fetch 1 "k" answers_eight None 7 ten_seconds_old
  = Done (Fulfilled 7) ten_seconds_old 0.
Proof.
  split.
  - apply (proj1 (fetch_tries_at_least_three 0 "k" answers_eight None 3 new_provider
                    ltac:(lia))).
    reflexivity.
  - apply (proj2 (fetch_tries_at_least_three 0 "k" answers_eight None 3 ten_seconds_old
                    ltac:(lia)) 7 (mkEntry 0 7)); reflexivity.
Defined.


(** The entry of ["k"] is there before; [invalidateCache] with listeners
    that leave the provider alone calls the primary, whose promise resolves
    with no entry in [map], and the entry is gone when it returns, in the end
    and after unrelated effects, until a [set] of ["k"]. *)
Lemma invalidate_clears_until_written_witness :
  get "k" three_listeners = Some (mkEntry 0 7) /\
  invalidateCache idle_listeners "k" three_listeners
  = Ran (run [EffOutside 1 tt] (map_delete "k" three_listeners))
        (run [EffOutside 1 tt; EffOutside 2 tt] (map_delete "k" three_listeners))
        [Invoked 1%nat Refetch; Resolved 1%nat] /\
  get "k" (run [EffOutside 1 tt] (map_delete "k" three_listeners)) = None /\
  get "k" (run [EffOutside 1 tt; EffOutside 2 tt] (map_delete "k" three_listeners))
  = None /\
  get "k" (run unrelated_effects
             (run [EffOutside 1 tt; EffOutside 2 tt] (map_delete "k" three_listeners)))
  = None /\
  get "k" (run (unrelated_effects ++ [EffSet "k" 9])
             (run [EffOutside 1 tt; EffOutside 2 tt] (map_delete "k" three_listeners)))
  = Some (mkEntry 5 9).
Proof.
  assert (Hno : Forall (fun eff => ~ writes "k" eff) unrelated_effects).
  { repeat constructor; intros [d Hd]; discriminate. }
  pose proof (invalidate_clears_until_written idle_listeners "k" three_listeners
                unrelated_effects Hno) as H.
  cbv zeta in H. destruct H as [_ H].
  change (invalidateCache idle_listeners "k" three_listeners)
    with (Ran (run [EffOutside 1 tt] (map_delete "k" three_listeners))
              (run [EffOutside 1 tt; EffOutside 2 tt] (map_delete "k" three_listeners))
              [Invoked 1%nat Refetch; Resolved 1%nat]) in H.
  cbv iota beta in H. destruct H as (Hret & Hfin & Hreturned & Hquiet).
  assert (Hcalled : Forall (fun eff => ~ writes "k" eff)
                      (primary_call_effects idle_listeners "k" three_listeners)).
  { change (primary_call_effects idle_listeners "k" three_listeners)
      with [EffOutside (D := Z) (L := nat) 1 tt].
    repeat constructor; intros [d Hd]; discriminate. }
  assert (Hall : Forall (fun eff => ~ writes "k" eff)
                   (primary_call_effects idle_listeners "k" three_listeners
                    ++ reaction_effects idle_listeners "k" three_listeners)).
  { change (primary_call_effects idle_listeners "k" three_listeners
            ++ reaction_effects idle_listeners "k" three_listeners)
      with [EffOutside (D := Z) (L := nat) 1 tt; EffOutside 2 tt].
    repeat constructor; intros [d Hd]; discriminate. }
  destruct (Hquiet Hall) as (Hfinal & Hstill & Hset & _).
  split; [reflexivity|]. split; [reflexivity|]. split; [exact (Hreturned Hcalled)|].
  split; [exact Hfinal|]. split; [exact Hstill | exact (Hset 9)].
Defined.

(** ** The further properties on the scenarios *)

Lemma set_then_fetch_witness :
  fetch 1 "k" answers_eight None default_tries (set "k" 7 new_provider)
  = Done (Fulfilled 7) (set "k" 7 new_provider) 0 /\
  fetch 1 "k" answers_eight (Some (mkOpts (Some (-1)%Q))) default_tries
        (set "k" 7 new_provider)
  = Done (Fulfilled 8) (set "k" 8 (set "k" 7 new_provider)) 1.
Proof.
  split.
  - apply (proj1 (set_then_fetch 0 "k" 7 answers_eight None default_tries new_provider)).
    discriminate.
  - apply (proj2 (set_then_fetch 0 "k" 7 answers_eight (Some (mkOpts (Some (-1)%Q)))
                    default_tries new_provider) 8 []); reflexivity.
Defined.

Lemma elapsed_monotone_witness :
  elapsed (mkEntry 0 7) five_seconds 300001 = true.
Proof.
  apply (elapsed_monotone (mkEntry 0 7) None five_seconds
           300001 300001).
  - reflexivity.
  - lia.
  - discriminate.
Defined.

Lemma fetch_tries_below_three_alike_witness :
  fetch 3 "k" flaky None 0 (initial 1000 0%nat)
  = fetch 3 "k" flaky None 2 (initial 1000 0%nat).
Proof.
  apply (fetch_tries_below_three_alike 3 "k" flaky None 0 2 (initial 1000 0%nat)); lia.
Defined.

Lemma fetch_returns_what_is_stored_witness :
  exists c, get "k" (set "k" 8 (run [EffOutside 300011 tt] just_expired)) = Some c /\
    data c = 8 /\
    (elapsed c None 300011 = false \/ insertedAt c = 300011) /\
    (1%nat = 0%nat ->
     set "k" 8 (run [EffOutside 300011 tt] just_expired) = just_expired /\
     elapsed c None 300001 = false).
Proof.
  apply (fetch_returns_what_is_stored 1 "k" slow_eight None default_tries just_expired
           8 (set "k" 8 (run [EffOutside 300011 tt] just_expired)) 1).
  reflexivity.
Defined.

Lemma fetch_default_timeout_witness :
  fetch 3 "k" flaky (Some (mkOpts None)) default_tries (initial 1000 0%nat)
  = fetch 3 "k" flaky None default_tries (initial 1000 0%nat) /\
  fetch 1 "k" answers_eight (Some (mkOpts (Some 300%Q))) default_tries just_expired
  = fetch 1 "k" answers_eight None default_tries just_expired.
Proof.
  split.
  - apply (fetch_default_timeout 3 "k" flaky (Some (mkOpts None)) None default_tries
             (initial 1000 0%nat)).
    reflexivity.
  - apply (fetch_default_timeout 1 "k" answers_eight (Some (mkOpts (Some 300%Q))) None
             default_tries just_expired).
    reflexivity.
Defined.

Lemma fetch_writes_its_key_only_witness :
  calls_of (fetch 1 "k" slow_eight None default_tries expired_among_others) = 1%nat /\
  listeners (world_of (fetch 1 "k" slow_eight None default_tries expired_among_others))
  = listeners expired_among_others /\
  (forall k, k <> "k" ->
     get k (world_of (fetch 1 "k" slow_eight None default_tries expired_among_others))
     = get k expired_among_others) /\
  (is_Some (get "k" expired_among_others) ->
   is_Some (get "k" (world_of (fetch 1 "k" slow_eight None default_tries
                                     expired_among_others)))).
Proof.
  split; [reflexivity|].
  apply (fetch_writes_its_key_only 1 "k" slow_eight None default_tries expired_among_others).
  intros w0. repeat constructor.
Defined.

Lemma fetch_retry_serves_concurrent_write_witness :
  fetch 2 "k" fails_while_other_writes None default_tries new_provider
  = Done (Fulfilled 9) (run [EffOutside 10 tt; EffSet "k" 9] new_provider) 1.
Proof.
  apply (fetch_retry_serves_concurrent_write 0 "k" fails_while_other_writes None
           default_tries new_provider [EffOutside 10 tt; EffSet "k" 9] (mkEntry 10 9));
    reflexivity.
Defined.

Lemma attach_all_appends_in_order_witness :
  listeners (attach_all "k" [2%nat; 2%nat; 5%nat] three_listeners) !! "k"
  = Some [1%nat; 2%nat; 3%nat; 2%nat; 2%nat; 5%nat].
Proof.
  apply (proj1 (attach_all_appends_in_order "k" [2%nat; 2%nat; 5%nat] three_listeners
                  ltac:(discriminate))).
Defined.

Lemma invalidate_without_listeners_witness :
  invalidateCache refetching_primary "k" ten_seconds_old
  = Ran (map_delete "k" ten_seconds_old) (map_delete "k" ten_seconds_old) [] /\
  invalidateCache refetching_primary "k" new_provider = Ran new_provider new_provider [].
Proof.
  split.
  - apply (proj1 (invalidate_without_listeners refetching_primary "k" ten_seconds_old
                    eq_refl)).
  - destruct (invalidate_without_listeners refetching_primary "k" new_provider eq_refl)
      as (Hrun & _ & _ & _ & Hsame).
    rewrite (Hsame eq_refl) in Hrun. exact Hrun.
Defined.

Lemma invalidate_refetch_notifies_all_witness :
  exists final,
    invalidateCache query_listeners "k" three_listeners
    = Ran (map_delete "k" three_listeners) final
          [Invoked 1%nat Refetch; Resolved 1%nat;
           Invoked 2%nat Refetch; Invoked 3%nat Refetch] /\
    get "k" final = Some (mkEntry 10 8).
Proof.
  destruct (invalidate_refetch_notifies_all query_listeners "k" three_listeners
              1%nat [2%nat; 3%nat] slow_eight 0 8 [EffOutside 10 tt]
              eq_refl eq_refl eq_refl) as [Hrun Hentry].
  eexists. split; [exact Hrun | reflexivity].
Defined.


Lemma mutate_never_rejects_witness :
  mutate query_listeners "k" rename_user (-1) three_listeners
  = mkMutateRun Pending three_listeners None.
Proof.
  apply (proj2 (proj2 (mutate_never_rejects query_listeners "k" rename_user (-1)
                         three_listeners))).
  reflexivity.
Defined.

Lemma loadState_loaded_witness :
  isLoading (mkQueryState (Some 8) false false) = false /\
  (exists c, get "k" (set "k" 8 (run [EffOutside 10 tt] new_provider)) = Some c /\
             state_data (mkQueryState (Some 8) false false) = Some (data c)) /\
  isDataLoaded (mkQueryState (Some 8) false false) = negb (isError (D := Z) useState_initial).
Proof.
  apply (loadState_loaded 1 "k" slow_eight new_provider useState_initial
           (set "k" 8 (run [EffOutside 10 tt] new_provider))
           (mkQueryState (Some 8) false false)).
  reflexivity.
Defined.

Lemma loadState_failing_query_stays_loading_witness :
  exists w', loadState 5 "k" always_down new_provider useState_initial
             = StillLoading w' useState_initial.
Proof.
  apply (loadState_failing_query_stays_loading 5 "k" always_down new_provider
           useState_initial).
  - reflexivity.
  - intros w0 Hg. exact Hg.
  - reflexivity.
Defined.
